(** * pforward: the parallel forwarding handler of [forward.go]

    A shallow embedding of [Forward.ServeDNS], [Forward.match] and
    [Forward.isAllowedDomain], with the properties of the fan-out, of the
    per-upstream retry loop and of the aggregation of the replies. *)

From Stdlib Require Import List Bool NArith ZArith Lia String Permutation Arith.
Import ListNotations.

(** ** The parts of [github.com/miekg/dns] that the handler touches *)

Module DNS.

(** [dns.Type...] and [dns.Rcode...] constants. *)
Definition TypeA : N := 1.
Definition TypeCNAME : N := 5.
Definition TypeAAAA : N := 28.
Definition RcodeSuccess : Z := 0.
Definition RcodeFormatError : Z := 1.
Definition RcodeServerFailure : Z := 2.
Definition OpcodeQuery : Z := 0.

(** A resource record: its header's name and type, and its data. *)
Record RR := mkRR {
  Name : string;
  Rrtype : N;
  Rdata : string
}.

Record Question := mkQuestion {
  QName : string;
  Qtype : N;
  Qclass : N
}.

(** [dns.Msg]: the header fields and the two sections the handler reads
    or writes. *)
Record Msg := mkMsg {
  Id : N;
  Response : bool;
  Opcode : Z;
  Truncated : bool;
  RecursionDesired : bool;
  CheckingDisabled : bool;
  Rcode : Z;
  Question_ : list Question;
  Answer : list RR
}.

(** [new(dns.Msg)]. *)
Definition new_Msg : Msg :=
  mkMsg 0 false 0 false false false 0 [] [].

(** [m.SetReply(request)]. *)
Definition SetReply (m request : Msg) : Msg :=
  let isq := Z.eqb (Opcode request) OpcodeQuery in
  mkMsg (Id request) true (Opcode request) (Truncated m)
        (if isq then RecursionDesired request else RecursionDesired m)
        (if isq then CheckingDisabled request else CheckingDisabled m)
        RcodeSuccess
        (match Question_ request with
         | [] => Question_ m
         | q :: _ => [q]
         end)
        (Answer m).

(** [m.SetRcode(request, rcode)]. *)
Definition SetRcode (m request : Msg) (rcode : Z) : Msg :=
  let m' := SetReply m request in
  mkMsg (Id m') (Response m') (Opcode m') (Truncated m')
        (RecursionDesired m') (CheckingDisabled m') rcode
        (Question_ m') (Answer m').

(** [m.Answer = rrs]: the assignment through the pointer. *)
Definition set_Answer (m : Msg) (rrs : list RR) : Msg :=
  mkMsg (Id m) (Response m) (Opcode m) (Truncated m)
        (RecursionDesired m) (CheckingDisabled m) (Rcode m)
        (Question_ m) rrs.

End DNS.

(** ** Values of [forward.go] *)

(** Go compares [error] values by identity: the three package-level
    sentinels, and any other error a transport can return. *)
Inductive error :=
| ErrNoHealthy
| ErrNoForward
| ErrCachedClosed
| ErrTransport (msg : string).

Definition error_eqb (a b : error) : bool :=
  match a, b with
  | ErrNoHealthy, ErrNoHealthy => true
  | ErrNoForward, ErrNoForward => true
  | ErrCachedClosed, ErrCachedClosed => true
  | ErrTransport x, ErrTransport y => String.eqb x y
  | _, _ => false
  end.

(** [type options struct]. *)
Record options := mkOptions {
  forceTCP : bool;
  preferUDP : bool
}.

(** [type fwdResp struct]; [ret] is a nilable [*dns.Msg] and
    [upstreamErr] a nilable [error]. *)
Record fwdResp := mkFwdResp {
  ret : option DNS.Msg;
  code : Z;
  upstreamErr : option error
}.

(** 32-bit unsigned arithmetic of [fails++]. *)
Definition uint32_max : N := 4294967295.
Definition wrap32 (n : N) : N := (n mod 4294967296)%N.
Definition uint32_ok (n : N) : Prop := (n <= uint32_max)%N.

(** ** One upstream, as one request sees it

    [Proxy.Connect], [Proxy.Down] and [Proxy.Healthcheck] act on the network
    and on health state shared with other goroutines.  For one worker they
    are a script: the results of its successive [Connect] calls, and the
    answer of its k-th call of [Down] after a failure.  [down_at_dispatch]
    is the answer [Down] gives when [ServeDNS] builds the live list. *)
Record ConnResult := mkConn {
  c_ret : option DNS.Msg;
  c_err : option error
}.

Record Proxy := mkProxy {
  down_at_dispatch : bool;
  connects : list ConnResult;
  down_after_fail : nat -> bool
}.

(** What a worker goroutine does, in order. *)
Inductive Event :=
| EvConnect (o : options)
| EvHealthcheck
| EvDown (answer : bool)
| EvSend (r : fwdResp).

(** How the goroutine stands when its script is used up: still waiting in
    [Connect], returned, or stopped by a nil dereference. *)
Inductive Exit := Blocked | Done | Panicked.

Record Run := mkRun {
  trace : list Event;
  final_fails : N;
  exit : Exit
}.

Definition prepend (evs : list Event) (r : Run) : Run :=
  mkRun (evs ++ trace r) (final_fails r) (exit r).

Definition sends (r : Run) : list fwdResp :=
  flat_map (fun e => match e with EvSend x => [x] | _ => [] end) (trace r).

Definition connect_count (r : Run) : nat :=
  List.length (filter (fun e => match e with EvConnect _ => true | _ => false end)
                      (trace r)).

(** [type Policy interface]: the method the handler calls. *)
Record Policy := mkPolicy {
  List_ : list Proxy -> list Proxy
}.

(** [type Forward struct], the fields the handler reads. *)
Record Forward := mkForward {
  proxies : list Proxy;
  p : Policy;
  from : string;
  ignored : list string;
  maxfails : N;
  opts : options
}.

(** [request.Request{W: w, Req: r}].  The response writer [W] is modelled
    by the list of messages written to it, see [ServeResult]. *)
Record Request := mkRequest {
  Req : DNS.Msg
}.

(** The functions of other packages that the handler calls and whose code
    is not part of this repository: [request.Request.Name],
    [request.Request.Match] and [dns.IsSubDomain]. *)
Class External := {
  state_Name : Request -> string;
  state_Match : Request -> DNS.Msg -> bool;
  IsSubDomain : string -> string -> bool
}.

(** ** The worker goroutine of [ServeDNS] (forward.go, lines 94-168) *)

(** Line 114: [err == ErrCachedClosed]. *)
Definition is_cached_closed (err : option error) : bool :=
  match err with
  | Some e => error_eqb e ErrCachedClosed
  | None => false
  end.

(** Line 118: [ret != nil && ret.Truncated && !opts.forceTCP && opts.preferUDP]. *)
Definition retry_with_tcp (o : options) (r : option DNS.Msg) : bool :=
  match r with
  | Some m => DNS.Truncated m && negb (forceTCP o) && preferUDP o
  | None => false
  end.

(** Line 119: [opts.forceTCP = true]. *)
Definition set_forceTCP (o : options) : options :=
  mkOptions true (preferUDP o).

(** Lines 151-152: the reply built when the upstream's reply does not match. *)
Definition formerr (state : Request) : DNS.Msg :=
  DNS.SetRcode DNS.new_Msg (Req state) DNS.RcodeFormatError.

Section Worker.
Context {E : External}.
Variable f : Forward.
Variable state : Request.
Variable down : nat -> bool.

(** Lines 131-133: the health check is kicked off unless [maxfails] is 0. *)
Definition healthcheck_events : list Event :=
  if N.eqb (maxfails f) 0 then [] else [EvHealthcheck].

(** The two loops from the point where [Connect] is about to be called
    (line 113) with the local variables [fails] and [opts]; [ndown] counts
    the calls of [proxy.Down] made so far.  Each call of [Connect] takes
    the next result of the script. *)
Fixpoint connect_loop (script : list ConnResult) (fails : N) (o : options)
         (ndown : nat) : Run :=
  match script with
  | [] => mkRun [] fails Blocked
  | r :: rest =>
    prepend [EvConnect o]
      (if is_cached_closed (c_err r) then
         (* line 115: continue the inner loop *)
         connect_loop rest fails o ndown
       else if retry_with_tcp o (c_ret r) then
         (* lines 119-120 *)
         connect_loop rest fails (set_forceTCP o) ndown
       else
         (* line 122: break *)
         match c_err r with
         | Some err =>
           (* lines 129-146 *)
           let fails' := wrap32 (fails + 1) in
           prepend (healthcheck_events ++ [EvDown (down ndown)])
             (if negb (down ndown) then
                (* line 137: continue, back to the test of line 100 *)
                if N.ltb fails' (maxfails f) then
                  connect_loop rest fails' (opts f) (S ndown)
                else mkRun [] fails' Done
              else
                mkRun [EvSend (mkFwdResp None 0 (Some err))] fails' Done)
         | None =>
           match c_ret r with
           | None =>
             (* [state.Match(nil)] dereferences the nil reply *)
             mkRun [] fails Panicked
           | Some m =>
             if negb (state_Match state m) then
               mkRun [EvSend (mkFwdResp (Some (formerr state)) 0 None)] fails Done
             else
               mkRun [EvSend (mkFwdResp (Some m) 0 None)] fails Done
           end
         end)
  end.

(** The goroutine: [fails] starts at 0 and the loop of line 100 is entered
    only if [fails < f.maxfails]. *)
Definition worker (script : list ConnResult) : Run :=
  if N.ltb 0 (maxfails f) then connect_loop script 0 (opts f) 0
  else mkRun [] 0 Done.

End Worker.

(** ** Aggregation of the collected results (forward.go, lines 179-211) *)

(** The [switch] of lines 186-193: [dns.TypeA] or [dns.TypeAAAA]. *)
Definition is_address (rr : DNS.RR) : bool :=
  N.eqb (DNS.Rrtype rr) DNS.TypeA || N.eqb (DNS.Rrtype rr) DNS.TypeAAAA.

(** Lines 185-194, the loop over the answer section of one reply [m]; the
    accumulator holds the local variables [successRet] and [ipAnswers]. *)
Fixpoint scan_answer (m : DNS.Msg) (rrs : list DNS.RR)
         (acc : option DNS.Msg * list DNS.RR) : option DNS.Msg * list DNS.RR :=
  match rrs with
  | [] => acc
  | rr :: rest =>
    scan_answer m rest
      (if N.eqb (DNS.Rrtype rr) DNS.TypeA then (Some m, snd acc ++ [rr])
       else if N.eqb (DNS.Rrtype rr) DNS.TypeAAAA then (Some m, snd acc ++ [rr])
       else acc)
  end.

(** Lines 181-195, the loop over the collected results. *)
Fixpoint scan_resps (resps : list fwdResp)
         (acc : option DNS.Msg * list DNS.RR) : option DNS.Msg * list DNS.RR :=
  match resps with
  | [] => acc
  | resp :: rest =>
    match ret resp with
    | None => scan_resps rest acc
    | Some m => scan_resps rest (scan_answer m (DNS.Answer m) acc)
    end
  end.

(** Lines 203-209: the first result that carries an error. *)
Fixpoint first_upstreamErr (resps : list fwdResp) : option error :=
  match resps with
  | [] => None
  | resp :: rest =>
    match upstreamErr resp with
    | None => first_upstreamErr rest
    | Some e => Some e
    end
  end.

(** What a call of [ServeDNS] comes to: the query is handed to the next
    plugin, or the call returns a code and an error after writing
    [written] to the response writer, or it waits for ever in [wg.Wait],
    or a goroutine panics. *)
Inductive ServeResult :=
| NextOrFailure
| Returned (written : list DNS.Msg) (rcode : Z) (err : option error)
| Waiting
| Crashed.

(** Lines 179-211. *)
Definition aggregate (resps : list fwdResp) : ServeResult :=
  let '(successRet, ipAnswers) := scan_resps resps (None, []) in
  if Nat.ltb 0 (List.length ipAnswers) then
    match successRet with
    | Some m => Returned [DNS.set_Answer m ipAnswers] 0 None
    | None => Crashed
    end
  else
    match first_upstreamErr resps with
    | Some e => Returned [] DNS.RcodeServerFailure (Some e)
    | None => Returned [] DNS.RcodeServerFailure (Some ErrNoHealthy)
    end.

(** ** Admission (forward.go, lines 214-233) *)

(** [plugin.Name(n).Matches(child)] of coredns: equal names, or [child] is
    a subdomain of [n]. *)
Definition Matches {E : External} (n child : string) : bool :=
  if String.eqb n child then true else IsSubDomain n child.

(** Lines 227-232. *)
Fixpoint ignored_loop {E : External} (ignored : list string) (name : string) : bool :=
  match ignored with
  | [] => true
  | ignore :: rest =>
    if Matches ignore name then false else ignored_loop rest name
  end.

Definition isAllowedDomain {E : External} (f : Forward) (name : string) : bool :=
  if String.eqb name (from f) then true
  else ignored_loop (ignored f) name.

Definition match_ {E : External} (f : Forward) (state : Request) : bool :=
  if negb (Matches (from f) (state_Name state))
     || negb (isAllowedDomain f (state_Name state))
  then false
  else true.

(** ** [ServeDNS] *)

(** [f.List()]. *)
Definition List (f : Forward) : list Proxy := List_ (p f) (proxies f).

(** Lines 81-87. *)
Fixpoint live_loop (list_ : list Proxy) (live : list Proxy) : list Proxy :=
  match list_ with
  | [] => live
  | proxy :: rest =>
    if down_at_dispatch proxy then live_loop rest live
    else live_loop rest (live ++ [proxy])
  end.

Definition is_exit (x : Exit) (r : Run) : bool :=
  match exit r, x with
  | Blocked, Blocked => true
  | Done, Done => true
  | Panicked, Panicked => true
  | _, _ => false
  end.

(** Lines 174-177: the channel is read in the order in which the workers
    sent; [arrival] lists the workers (by their index in [live]) in that
    order. *)
Definition collected (runs : list Run) (arrival : list nat) : list fwdResp :=
  flat_map (fun i => match nth_error runs i with
                     | Some r => sends r
                     | None => []
                     end) arrival.

Definition ServeDNS {E : External} (f : Forward) (state : Request)
           (arrival : list nat) : ServeResult :=
  if negb (match_ f state) then NextOrFailure
  else
    let list_ := List f in
    let live := live_loop list_ [] in
    let runs := map (fun proxy =>
                       worker f state (down_after_fail proxy) (connects proxy))
                    live in
    if existsb (is_exit Panicked) runs then Crashed
    else if existsb (is_exit Blocked) runs then Waiting
    else aggregate (collected runs arrival).

(** ** Instances and inputs used by the examples *)

(** [request.Request.Name] and [request.Request.Match] on names that are
    already lower-case and fully qualified, and [dns.IsSubDomain] on names
    without escaped dots. *)
Definition sample_Name (state : Request) : string :=
  match DNS.Question_ (Req state) with
  | q :: _ => DNS.QName q
  | [] => "."
  end.

Definition sample_QType (state : Request) : N :=
  match DNS.Question_ (Req state) with
  | q :: _ => DNS.Qtype q
  | [] => 0
  end.

Definition sample_Match (state : Request) (reply : DNS.Msg) : bool :=
  match DNS.Question_ reply with
  | [q] => DNS.Response reply
           && String.eqb (DNS.QName q) (sample_Name state)
           && N.eqb (DNS.Qtype q) (sample_QType state)
  | _ => false
  end.

Definition sample_IsSubDomain (parent child : string) : bool :=
  let lp := String.length parent in
  let lc := String.length child in
  String.eqb parent "."
  || (Nat.leb lp lc && String.eqb (substring (lc - lp) lp child) parent).

Definition sample_External : External :=
  Build_External sample_Name sample_Match sample_IsSubDomain.

Definition q_www : DNS.Question := DNS.mkQuestion "www.example.org." 1 1.

Definition query_www : Request :=
  mkRequest (DNS.mkMsg 7 false 0 false true false 0 [q_www] []).

Definition query_apex : Request :=
  mkRequest (DNS.mkMsg 8 false 0 false true false 0
                       [DNS.mkQuestion "example.org." 1 1] []).

Definition rr_a : DNS.RR := DNS.mkRR "www.example.org." DNS.TypeA "192.0.2.1".
Definition rr_aaaa : DNS.RR := DNS.mkRR "www.example.org." DNS.TypeAAAA "2001:db8::1".
Definition rr_cname : DNS.RR :=
  DNS.mkRR "www.example.org." DNS.TypeCNAME "host.example.net.".

(** Replies to [query_www]. *)
Definition reply_a : DNS.Msg :=
  DNS.mkMsg 7 true 0 false true false 0 [q_www] [rr_a].
Definition reply_aaaa : DNS.Msg :=
  DNS.mkMsg 7 true 0 false true false 0 [q_www] [rr_aaaa].
Definition reply_cname : DNS.Msg :=
  DNS.mkMsg 7 true 0 false true false 3 [q_www] [rr_cname].
Definition reply_truncated : DNS.Msg :=
  DNS.mkMsg 7 true 0 true true false 0 [q_www] [].
(** A reply to another question. *)
Definition reply_other : DNS.Msg :=
  DNS.mkMsg 9 true 0 false true false 0
            [DNS.mkQuestion "mail.example.org." 1 1] [rr_a].

Definition timeout_err : error := ErrTransport "i/o timeout".
Definition conn_timeout : ConnResult := mkConn None (Some timeout_err).

Definition never_down : nat -> bool := fun _ => false.
Definition always_down : nat -> bool := fun _ => true.

Definition identity_policy : Policy := mkPolicy (fun l => l).

Definition forward_with (ps : list Proxy) (mf : N) (o : options) : Forward :=
  mkForward ps identity_policy "example.org." ["internal.example.org."%string] mf o.

(** ** Notions used to state the properties *)

(** The address records of the replies of [resps], in collection order. *)
Definition address_records (resps : list fwdResp) : list DNS.RR :=
  flat_map (fun resp => match ret resp with
                        | Some m => filter is_address (DNS.Answer m)
                        | None => []
                        end) resps.

(** The replies ([ret] not nil) of [resps], in collection order. *)
Definition replies (resps : list fwdResp) : list DNS.Msg :=
  flat_map (fun resp => match ret resp with
                        | Some m => [m]
                        | None => []
                        end) resps.

Definition has_address (m : DNS.Msg) : bool :=
  existsb is_address (DNS.Answer m).

(** The last reply in collection order, and the last one that holds an
    address record. *)
Definition last_reply (resps : list fwdResp) : option DNS.Msg :=
  hd_error (rev (replies resps)).

Definition last_address_reply (resps : list fwdResp) : option DNS.Msg :=
  find has_address (rev (replies resps)).

Definition carries_error (resp : fwdResp) : bool :=
  match upstreamErr resp with
  | Some _ => true
  | None => false
  end.

(** A [Connect] result that is a plain transport failure: an error other
    than [ErrCachedClosed], and no truncated reply with it. *)
Definition generic_failure (r : ConnResult) : bool :=
  match c_err r with
  | Some e => negb (error_eqb e ErrCachedClosed)
  | None => false
  end
  && match c_ret r with
     | Some m => negb (DNS.Truncated m)
     | None => true
     end.

(** Counters over the events of a run. *)
Definition healthcheck_count (r : Run) : nat :=
  List.length (filter (fun e => match e with EvHealthcheck => true | _ => false end)
                      (trace r)).

Definition down_count (r : Run) : nat :=
  List.length (filter (fun e => match e with EvDown _ => true | _ => false end)
                      (trace r)).

(** The options of the successive [Connect] calls of a run. *)
Definition connect_options (r : Run) : list options :=
  flat_map (fun e => match e with EvConnect o => [o] | _ => [] end) (trace r).

(** A [Connect] result other than the [ErrCachedClosed] sentinel. *)
Definition not_cached_closed (r : ConnResult) : bool :=
  negb (is_cached_closed (c_err r)).

(** A [Connect] result that holds a reply or an error. *)
Definition reply_or_error (r : ConnResult) : bool :=
  match c_ret r, c_err r with
  | None, None => false
  | _, _ => true
  end.

(** Line 118 can still escalate to TCP under these options. *)
Definition can_escalate (o : options) : bool :=
  negb (forceTCP o) && preferUDP o.

(** A bound on the [Connect] calls left from a point of the loop: two for
    each failure still allowed, one less once [forceTCP] is set. *)
Definition connect_budget (f : Forward) (fails : N) (o : options) : nat :=
  2 * N.to_nat (maxfails f - fails) - (if can_escalate o then 0 else 1).

(** * Properties *)

Lemma error_eqb_eq a b : error_eqb a b = true <-> a = b.
Proof.
  destruct a, b; simpl; split; intro H; try congruence; try discriminate.
  - apply String.eqb_eq in H. congruence.
  - inversion H. apply String.eqb_refl.
Qed.

Lemma is_cached_closed_spec err :
  is_cached_closed err = true <-> err = Some ErrCachedClosed.
Proof.
  destruct err as [e|]; simpl.
  - rewrite error_eqb_eq. split; congruence.
  - split; discriminate.
Qed.

(** ** Counting the events of a run *)

Lemma sends_prepend evs r :
  sends (prepend evs r) = sends (mkRun evs 0 Done) ++ sends r.
Proof. unfold sends, prepend; simpl. now rewrite flat_map_app. Qed.

Lemma connect_count_prepend evs r :
  connect_count (prepend evs r) = connect_count (mkRun evs 0 Done) + connect_count r.
Proof.
  unfold connect_count, prepend; simpl.
  now rewrite filter_app, length_app.
Qed.

Lemma exit_prepend evs r : exit (prepend evs r) = exit r.
Proof. reflexivity. Qed.

Lemma final_fails_prepend evs r : final_fails (prepend evs r) = final_fails r.
Proof. reflexivity. Qed.

Lemma wrap32_succ fails mf :
  uint32_ok mf -> (fails < mf)%N -> wrap32 (fails + 1) = (fails + 1)%N.
Proof.
  unfold uint32_ok, uint32_max, wrap32. intros Hmf Hlt.
  apply N.mod_small. lia.
Qed.

Section WorkerFacts.
Context {E : External}.
Variable f : Forward.
Variable state : Request.
Variable down : nat -> bool.

Lemma sends_healthcheck_events tl :
  sends (mkRun (healthcheck_events f ++ tl) 0 Done) = sends (mkRun tl 0 Done).
Proof.
  unfold healthcheck_events. now destruct (N.eqb (maxfails f) 0).
Qed.

Lemma connect_count_healthcheck_events tl :
  connect_count (mkRun (healthcheck_events f ++ tl) 0 Done)
  = connect_count (mkRun tl 0 Done).
Proof.
  unfold healthcheck_events. now destruct (N.eqb (maxfails f) 0).
Qed.

(** A worker sends at most one result, whatever its upstream does. *)
Lemma connect_loop_sends_le script : forall fails o ndown,
  List.length (sends (connect_loop f state down script fails o ndown)) <= 1.
Proof.
  induction script as [|r rest IH]; intros fails o ndown; simpl.
  - auto.
  - rewrite sends_prepend; simpl.
    destruct (is_cached_closed (c_err r)); [apply IH|].
    destruct (retry_with_tcp o (c_ret r)); [apply IH|].
    destruct (c_err r) as [err|].
    + rewrite sends_prepend, sends_healthcheck_events; simpl.
      destruct (down ndown); simpl; [auto|].
      destruct (N.ltb _ _); [apply IH | auto].
    + destruct (c_ret r) as [m|]; [|auto].
      destruct (state_Match state m); simpl; auto.
Qed.

Lemma worker_sends_le script :
  List.length (sends (worker f state down script)) <= 1.
Proof.
  unfold worker. destruct (N.ltb 0 (maxfails f)).
  - apply connect_loop_sends_le.
  - simpl. auto.
Qed.

End WorkerFacts.

(** ** The retry loop under plain transport failures *)

Section RetryBound.
Context {E : External}.
Variable f : Forward.
Variable state : Request.
Variable down : nat -> bool.
Hypothesis maxfails_ok : uint32_ok (maxfails f).

Lemma generic_failure_inv r :
  generic_failure r = true ->
  is_cached_closed (c_err r) = false
  /\ (forall o, retry_with_tcp o (c_ret r) = false)
  /\ exists e, c_err r = Some e.
Proof.
  unfold generic_failure, is_cached_closed, retry_with_tcp.
  destruct (c_err r) as [e|]; simpl; [|discriminate].
  intro H. apply andb_prop in H as [He Hr]. repeat split.
  - now destruct (error_eqb e ErrCachedClosed).
  - intro o. destruct (c_ret r) as [m|]; [|reflexivity].
    destruct (DNS.Truncated m); [discriminate | reflexivity].
  - now exists e.
Qed.

(** One turn of the loop on a plain failure (lines 113-146). *)
Lemma connect_loop_failure r rest fails o ndown :
  generic_failure r = true ->
  (fails < maxfails f)%N ->
  exists e, c_err r = Some e /\
  connect_loop f state down (r :: rest) fails o ndown
  = prepend [EvConnect o]
      (prepend (healthcheck_events f ++ [EvDown (down ndown)])
         (if down ndown
          then mkRun [EvSend (mkFwdResp None 0 (Some e))] (fails + 1) Done
          else if N.ltb (fails + 1) (maxfails f)
               then connect_loop f state down rest (fails + 1) (opts f) (S ndown)
               else mkRun [] (fails + 1) Done)).
Proof.
  intros Hr Hlt.
  destruct (generic_failure_inv r Hr) as (Hcc & Htcp & e & He).
  exists e. split; [exact He|].
  cbn [connect_loop]. rewrite Hcc, Htcp, He, (wrap32_succ fails (maxfails f) maxfails_ok Hlt).
  now destruct (down ndown).
Qed.

(** From any point of the loop with [left] failures still allowed, a script
    of plain failures makes the worker return after at most [left] calls
    of [Connect], and after exactly [left] calls just when [Down] answers
    false after each of the first [left - 1] failures. *)
Lemma connect_loop_generic script : forall fails o ndown,
  (fails < maxfails f)%N ->
  forallb generic_failure script = true ->
  N.to_nat (maxfails f - fails) <= List.length script ->
  let r := connect_loop f state down script fails o ndown in
  let left := N.to_nat (maxfails f - fails) in
  exit r = Done
  /\ connect_count r <= left
  /\ (connect_count r = left <->
      forall i, ndown <= i -> i + 1 < ndown + left -> down i = false).
Proof.
  induction script as [|r rest IH]; intros fails o ndown Hlt Hall Hlen;
    cbn [forallb List.length] in Hall, Hlen; cbn zeta.
  - lia.
  - apply andb_prop in Hall as [Hr Hrest].
    destruct (connect_loop_failure r rest fails o ndown Hr Hlt) as (e & He & ->).
    rewrite !exit_prepend, !connect_count_prepend, connect_count_healthcheck_events.
    change (connect_count (mkRun [EvConnect o] 0 Done)) with 1.
    change (connect_count (mkRun [EvDown (down ndown)] 0 Done)) with 0.
    destruct (down ndown) eqn:Hd.
    + change (connect_count (mkRun [EvSend (mkFwdResp None 0 (Some e))] (fails + 1) Done))
        with 0.
      cbn [exit]. split; [reflexivity|]. split; [lia|]. split.
      * intros Heq i Hi1 Hi2. lia.
      * intro Hdown.
        destruct (Nat.eq_dec (N.to_nat (maxfails f - fails)) 1) as [->|Hne];
          [reflexivity|].
        assert (Hi : ndown + 1 < ndown + N.to_nat (maxfails f - fails)) by lia.
        specialize (Hdown ndown (le_n _) Hi). congruence.
    + destruct (N.ltb (fails + 1) (maxfails f)) eqn:Hnext.
      * apply N.ltb_lt in Hnext.
        assert (Hk : N.to_nat (maxfails f - (fails + 1))
                     = N.to_nat (maxfails f - fails) - 1) by lia.
        destruct (IH (fails + 1)%N (opts f) (S ndown) Hnext Hrest) as (Hex & Hle & Hiff).
        { lia. }
        cbn zeta in Hle, Hiff. rewrite Hk in Hle, Hiff.
        split; [exact Hex|]. split; [lia|]. split.
        -- intros Heq i Hi1 Hi2.
           destruct (Nat.eq_dec i ndown) as [->|Hne]; [exact Hd|].
           apply Hiff; lia.
        -- intro Hdown.
           cut (connect_count
                  (connect_loop f state down rest (fails + 1) (opts f) (S ndown))
                = N.to_nat (maxfails f - fails) - 1); [lia|].
           apply Hiff. intros i Hi1 Hi2. apply Hdown; lia.
      * apply N.ltb_ge in Hnext.
        change (connect_count (mkRun [] (fails + 1) Done)) with 0.
        assert (Hk : N.to_nat (maxfails f - fails) = 1) by lia.
        rewrite Hk. cbn [exit]. split; [reflexivity|]. split; [lia|].
        split; [intros _ i Hi1 Hi2; lia | reflexivity].
Qed.

End RetryBound.

(** ** The worker: results sent *)

Section WorkerResults.
Context {E : External}.
Variable f : Forward.
Variable state : Request.
Variable down : nat -> bool.

(** When [Down] keeps answering false, a script of plain failures leaves the
    loop through the test of line 100, and nothing has been sent. *)
Lemma connect_loop_not_down_sends_nothing script : forall fails o ndown,
  uint32_ok (maxfails f) ->
  (fails < maxfails f)%N ->
  forallb generic_failure script = true ->
  (forall i, down i = false) ->
  sends (connect_loop f state down script fails o ndown) = [].
Proof.
  induction script as [|r rest IH]; intros fails o ndown Hok Hlt Hall Hdown.
  - reflexivity.
  - cbn [forallb] in Hall. apply andb_prop in Hall as [Hr Hrest].
    destruct (connect_loop_failure f state down Hok r rest fails o ndown Hr Hlt)
      as (e & _ & ->).
    rewrite !sends_prepend, sends_healthcheck_events, Hdown.
    cbn [sends trace flat_map app].
    destruct (N.ltb (fails + 1) (maxfails f)) eqn:Hnext; [|reflexivity].
    apply IH; auto. now apply N.ltb_lt.
Qed.

End WorkerResults.

(** C1: every worker pushes exactly one result before it exits, for every
    sequence of [Connect] results and every [maxfails].  The code does not:
    with [maxfails = 2], an upstream whose two [Connect] calls time out and
    whose [Down] stays false makes the worker leave the loop of line 100
    after two attempts, having sent nothing; with [maxfails = 0] the worker
    returns at once, without even calling [Connect] on an upstream that
    would have answered.  [ServeDNS] then reports [ErrNoHealthy] although
    the only result there could be is the upstream's own error. *)
Theorem worker_exits_without_result :
  let E := sample_External in
  let o := mkOptions false false in
  let p2 := mkProxy false [conn_timeout; conn_timeout] never_down in
  let r2 := worker (forward_with [p2] 2 o) query_www
                   (down_after_fail p2) (connects p2) in
  let p0 := mkProxy false [mkConn (Some reply_a) None] never_down in
  let r0 := worker (forward_with [p0] 0 o) query_www
                   (down_after_fail p0) (connects p0) in
  (exit r2 = Done /\ connect_count r2 = 2 /\ sends r2 = [])
  /\ (exit r0 = Done /\ connect_count r0 = 0 /\ sends r0 = [])
  /\ ServeDNS (forward_with [p2] 2 o) query_www [0]
     = Returned [] DNS.RcodeServerFailure (Some ErrNoHealthy).
Proof.
  cbv zeta. repeat split; vm_compute; reflexivity.
Qed.

(** C5, as amended: for [maxfails > 0], a worker whose [Connect] calls all
    fail with a plain transport error returns after at most [maxfails]
    attempts; it makes exactly [maxfails] attempts if and only if
    [Down(maxfails)] answers false after each of the first [maxfails - 1]
    failures. *)
Theorem worker_plain_failures_attempts {E : External} f state down script :
  uint32_ok (maxfails f) ->
  (0 < maxfails f)%N ->
  forallb generic_failure script = true ->
  N.to_nat (maxfails f) <= List.length script ->
  exit (worker f state down script) = Done
  /\ connect_count (worker f state down script) <= N.to_nat (maxfails f)
  /\ (connect_count (worker f state down script) = N.to_nat (maxfails f) <->
      forall i, i + 1 < N.to_nat (maxfails f) -> down i = false).
Proof.
  intros Hok Hpos Hall Hlen. unfold worker.
  destruct (N.ltb_spec 0 (maxfails f)) as [_|Hle]; [|lia].
  destruct (connect_loop_generic f state down Hok script 0%N (opts f) 0 Hpos Hall)
    as (Hex & Hle & Hiff).
  { now rewrite N.sub_0_r. }
  cbn zeta in Hle, Hiff. rewrite N.sub_0_r in Hle, Hiff.
  split; [exact Hex|]. split; [exact Hle|].
  rewrite Hiff. split; intros H i; [intro Hi; apply H; lia | intros _ Hi; apply H; lia].
Qed.

Lemma worker_plain_failures_attempts_witness :
  let E := sample_External in
  let f := forward_with [] 2 (mkOptions false false) in
  let script := [conn_timeout; conn_timeout] in
  exit (worker f query_www never_down script) = Done
  /\ connect_count (worker f query_www never_down script) <= 2
  /\ (connect_count (worker f query_www never_down script) = 2 <->
      forall i, i + 1 < 2 -> never_down i = false).
Proof.
  cbv zeta.
  apply (@worker_plain_failures_attempts sample_External
           (forward_with [] 2 (mkOptions false false)) query_www never_down
           [conn_timeout; conn_timeout]).
  - unfold uint32_ok, uint32_max. simpl. lia.
  - simpl. lia.
  - reflexivity.
  - simpl. lia.
Defined.

(** C5, as stated, fails: with [maxfails = 3] and an upstream that was marked
    down by the time of the first failure, the worker stops after one
    attempt although every [Connect] result is a plain transport error. *)
Lemma worker_stops_before_maxfails :
  let E := sample_External in
  let f := forward_with [] 3 (mkOptions false false) in
  let script := [conn_timeout; conn_timeout; conn_timeout] in
  let r := worker f query_www always_down script in
  (0 < maxfails f)%N
  /\ forallb generic_failure script = true
  /\ exit r = Done
  /\ connect_count r = 1
  /\ connect_count r <> N.to_nat (maxfails f).
Proof.
  cbv zeta. repeat split; try reflexivity. vm_compute. discriminate.
Qed.

(** ** The worker: replies *)

(** C6: when [Connect] returns a reply without error and [state.Match]
    rejects it (line 148 is reached, so the reply is not one that line 118
    retries over TCP), the worker sends one result holding a synthesized
    reply with rcode FormatError and a nil error, returns without another
    [Connect] call, and leaves the failure counter as it was; no health
    check is started. *)
Theorem mismatched_reply_gives_formerr {E : External} f state down m rest fails o ndown :
  retry_with_tcp o (Some m) = false ->
  state_Match state m = false ->
  connect_loop f state down (mkConn (Some m) None :: rest) fails o ndown
  = mkRun [EvConnect o; EvSend (mkFwdResp (Some (formerr state)) 0 None)] fails Done
  /\ DNS.Rcode (formerr state) = DNS.RcodeFormatError
  /\ DNS.Answer (formerr state) = [].
Proof.
  intros Htcp Hmatch. cbn [connect_loop c_err c_ret is_cached_closed].
  rewrite Htcp, Hmatch. repeat split.
Qed.

Lemma mismatched_reply_gives_formerr_witness :
  let E := sample_External in
  let f := forward_with [] 2 (mkOptions false true) in
  let o := mkOptions false true in
  connect_loop f query_www never_down
               [mkConn (Some reply_other) None; conn_timeout] 1 o 1
  = mkRun [EvConnect o; EvSend (mkFwdResp (Some (formerr query_www)) 0 None)] 1 Done
  /\ DNS.Rcode (formerr query_www) = DNS.RcodeFormatError
  /\ DNS.Answer (formerr query_www) = [].
Proof.
  cbv zeta.
  apply (@mismatched_reply_gives_formerr sample_External
           (forward_with [] 2 (mkOptions false true)) query_www never_down
           reply_other [conn_timeout] 1%N (mkOptions false true) 1).
  - reflexivity.
  - reflexivity.
Defined.

(** C7: when [Connect] returns a truncated reply (and not the
    [ErrCachedClosed] sentinel, which line 114 tests first) while the
    attempt's options have [forceTCP] unset and [preferUDP] set, the worker
    goes on with [forceTCP = true] in its own copy of the options: the next
    event is a [Connect] call with these options, the failure counter and
    the number of [Down] calls are unchanged, and [f.opts] is not touched. *)
Theorem truncated_reply_retries_over_tcp {E : External} f state down r m rest fails o ndown :
  c_ret r = Some m ->
  DNS.Truncated m = true ->
  forceTCP o = false ->
  preferUDP o = true ->
  c_err r <> Some ErrCachedClosed ->
  connect_loop f state down (r :: rest) fails o ndown
  = prepend [EvConnect o]
            (connect_loop f state down rest fails (mkOptions true true) ndown)
  /\ (rest <> [] ->
      firstn 2 (trace (connect_loop f state down (r :: rest) fails o ndown))
      = [EvConnect o; EvConnect (mkOptions true true)]).
Proof.
  intros Hret Htr Hforce Hudp Herr.
  assert (Hcc : is_cached_closed (c_err r) = false).
  { destruct (is_cached_closed (c_err r)) eqn:H; [|reflexivity].
    apply is_cached_closed_spec in H. contradiction. }
  assert (Heq : connect_loop f state down (r :: rest) fails o ndown
                = prepend [EvConnect o]
                    (connect_loop f state down rest fails (mkOptions true true) ndown)).
  { cbn [connect_loop]. rewrite Hcc. unfold retry_with_tcp, set_forceTCP.
    now rewrite Hret, Htr, Hforce, Hudp. }
  split; [exact Heq|].
  intro Hne. rewrite Heq. destruct rest as [|r' rest']; [congruence|].
  reflexivity.
Qed.

Lemma truncated_reply_retries_over_tcp_witness :
  let E := sample_External in
  let f := forward_with [] 2 (mkOptions false true) in
  let o := mkOptions false true in
  let r := mkConn (Some reply_truncated) None in
  let rest := [mkConn (Some reply_a) None] in
  connect_loop f query_www never_down (r :: rest) 0 o 0
  = prepend [EvConnect o]
            (connect_loop f query_www never_down rest 0 (mkOptions true true) 0)
  /\ (rest <> [] ->
      firstn 2 (trace (connect_loop f query_www never_down (r :: rest) 0 o 0))
      = [EvConnect o; EvConnect (mkOptions true true)]).
Proof.
  cbv zeta.
  apply (@truncated_reply_retries_over_tcp sample_External
           (forward_with [] 2 (mkOptions false true)) query_www never_down
           (mkConn (Some reply_truncated) None) reply_truncated
           [mkConn (Some reply_a) None] 0%N (mkOptions false true) 0).
  - reflexivity.
  - reflexivity.
  - reflexivity.
  - reflexivity.
  - simpl. discriminate.
Defined.

(** ** Aggregation *)

Lemma find_app_last {A} (P : A -> bool) l x :
  find P (rev (x :: l))
  = match find P (rev l) with
    | Some y => Some y
    | None => if P x then Some x else None
    end.
Proof.
  cbn [rev]. induction (rev l) as [|y l' IH]; cbn [app find].
  - reflexivity.
  - destruct (P y); [reflexivity | exact IH].
Qed.

Lemma is_address_cases rr :
  is_address rr
  = if N.eqb (DNS.Rrtype rr) DNS.TypeA then true
    else if N.eqb (DNS.Rrtype rr) DNS.TypeAAAA then true else false.
Proof.
  unfold is_address. now destruct (N.eqb (DNS.Rrtype rr) DNS.TypeA),
                          (N.eqb (DNS.Rrtype rr) DNS.TypeAAAA).
Qed.

(** The loop over one answer section appends the section's address records
    and, if there is one, makes the reply the template. *)
Lemma scan_answer_spec m rrs : forall acc,
  scan_answer m rrs acc
  = (if existsb is_address rrs then Some m else fst acc,
     snd acc ++ filter is_address rrs).
Proof.
  induction rrs as [|rr rest IH]; intros [t ips]; cbn [scan_answer existsb filter fst snd].
  - now rewrite app_nil_r.
  - rewrite IH, (is_address_cases rr).
    destruct (N.eqb (DNS.Rrtype rr) DNS.TypeA); cbn [fst snd orb].
    + rewrite <- app_assoc. now destruct (existsb is_address rest).
    + destruct (N.eqb (DNS.Rrtype rr) DNS.TypeAAAA); cbn [fst snd orb].
      * rewrite <- app_assoc. now destruct (existsb is_address rest).
      * reflexivity.
Qed.

Lemma scan_resps_spec resps : forall acc,
  scan_resps resps acc
  = (match last_address_reply resps with
     | Some m => Some m
     | None => fst acc
     end,
     snd acc ++ address_records resps).
Proof.
  unfold last_address_reply.
  induction resps as [|resp rest IH]; intros [t ips]; cbn [scan_resps fst snd].
  - cbn. now rewrite app_nil_r.
  - unfold replies, address_records. cbn [flat_map].
    fold (replies rest). fold (address_records rest).
    destruct (ret resp) as [m|].
    + rewrite IH, scan_answer_spec. cbn [fst snd app].
      rewrite find_app_last, <- app_assoc. unfold has_address.
      destruct (find (fun m0 => existsb is_address (DNS.Answer m0)) (rev (replies rest)));
        [reflexivity|].
      now destruct (existsb is_address (DNS.Answer m)).
    + rewrite IH. reflexivity.
Qed.

Lemma address_records_replies resps :
  address_records resps
  = flat_map (fun m => filter is_address (DNS.Answer m)) (replies resps).
Proof.
  induction resps as [|resp rest IH]; [reflexivity|].
  unfold address_records, replies in *. cbn [flat_map].
  destruct (ret resp); cbn [app flat_map]; now rewrite IH.
Qed.

Lemma filter_nil_existsb {A} (P : A -> bool) l :
  filter P l = [] <-> existsb P l = false.
Proof.
  induction l as [|x l IH]; cbn; [tauto|].
  destruct (P x); cbn; [split; discriminate | exact IH].
Qed.

(** No reply holds an address record exactly when none was collected. *)
Lemma last_address_reply_none resps :
  last_address_reply resps = None <-> address_records resps = [].
Proof.
  rewrite address_records_replies. unfold last_address_reply.
  generalize (replies resps) as l. intro l. split.
  - intro H. induction l as [|m l IH]; [reflexivity|].
    rewrite find_app_last in H. cbn [flat_map].
    destruct (find has_address (rev l)); [discriminate|].
    destruct (has_address m) eqn:Hm; [discriminate|].
    apply filter_nil_existsb in Hm. rewrite Hm. now apply IH.
  - intro H. induction l as [|m l IH]; [reflexivity|].
    cbn [flat_map] in H. apply app_eq_nil in H as [Hm Hl].
    rewrite find_app_last, (IH Hl).
    apply filter_nil_existsb in Hm. unfold has_address. now rewrite Hm.
Qed.

(** [aggregate], case by case. *)
Lemma aggregate_with_addresses resps :
  address_records resps <> [] ->
  exists m, last_address_reply resps = Some m
            /\ aggregate resps
               = Returned [DNS.set_Answer m (address_records resps)] 0 None.
Proof.
  intro Hne. unfold aggregate. rewrite scan_resps_spec. cbn [fst snd app].
  destruct (last_address_reply resps) as [m|] eqn:Hl.
  - exists m. split; [reflexivity|].
    destruct (address_records resps); [congruence | reflexivity].
  - apply last_address_reply_none in Hl. contradiction.
Qed.

Lemma first_upstreamErr_find resps :
  first_upstreamErr resps
  = match find carries_error resps with
    | Some resp => upstreamErr resp
    | None => None
    end.
Proof.
  induction resps as [|resp rest IH]; [reflexivity|].
  cbn [first_upstreamErr find]. unfold carries_error at 1.
  destruct (upstreamErr resp) eqn:He; [now rewrite He | exact IH].
Qed.

Lemma aggregate_without_addresses resps :
  address_records resps = [] ->
  aggregate resps
  = Returned [] DNS.RcodeServerFailure
             (match first_upstreamErr resps with
              | Some e => Some e
              | None => Some ErrNoHealthy
              end).
Proof.
  intro Hnil. unfold aggregate. rewrite scan_resps_spec. cbn [fst snd app].
  rewrite Hnil. cbn. now destruct (first_upstreamErr resps).
Qed.

(** C2: when some reply among the collected results holds an address
    record, [ServeDNS] writes one reply whose answer section is the
    concatenation, in collection order, of the A and AAAA records of every
    reply, nothing dropped and nothing merged; and whatever the order in
    which the same results arrive, the answer section written is the same
    multiset of records. *)
Theorem aggregate_answer_is_all_address_records resps :
  address_records resps <> [] ->
  exists m,
    aggregate resps = Returned [m] 0 None
    /\ DNS.Answer m = address_records resps
    /\ forall resps', Permutation resps resps' ->
       exists m', aggregate resps' = Returned [m'] 0 None
                  /\ Permutation (DNS.Answer m) (DNS.Answer m').
Proof.
  intro Hne.
  destruct (aggregate_with_addresses resps Hne) as (m & _ & Hagg).
  eexists. split; [exact Hagg|]. split; [reflexivity|].
  intros resps' Hperm.
  assert (Hrec : Permutation (address_records resps) (address_records resps')).
  { unfold address_records. now apply Permutation_flat_map. }
  assert (Hne' : address_records resps' <> []).
  { intro Hnil. rewrite Hnil in Hrec. apply Permutation_sym, Permutation_nil in Hrec.
    contradiction. }
  destruct (aggregate_with_addresses resps' Hne') as (m' & _ & Hagg').
  eexists. split; [exact Hagg'|]. exact Hrec.
Qed.

Lemma aggregate_answer_is_all_address_records_witness :
  let resps := [mkFwdResp (Some reply_a) 0 None;
                mkFwdResp None 0 (Some timeout_err);
                mkFwdResp (Some reply_aaaa) 0 None;
                mkFwdResp (Some reply_a) 0 None] in
  exists m,
    aggregate resps = Returned [m] 0 None
    /\ DNS.Answer m = address_records resps
    /\ forall resps', Permutation resps resps' ->
       exists m', aggregate resps' = Returned [m'] 0 None
                  /\ Permutation (DNS.Answer m) (DNS.Answer m').
Proof.
  cbv zeta.
  apply (aggregate_answer_is_all_address_records
           [mkFwdResp (Some reply_a) 0 None;
            mkFwdResp None 0 (Some timeout_err);
            mkFwdResp (Some reply_aaaa) 0 None;
            mkFwdResp (Some reply_a) 0 None]).
  simpl. discriminate.
Defined.

(** C4: when no address record was collected, [ServeDNS] writes nothing and
    returns the server-failure rcode, with the error of the first result in
    collection order that carries one, or with [ErrNoHealthy] when no result
    carries an error. *)
Theorem aggregate_failure_reports_first_error resps :
  address_records resps = [] ->
  aggregate resps
  = Returned [] DNS.RcodeServerFailure
             (match find carries_error resps with
              | Some resp => upstreamErr resp
              | None => Some ErrNoHealthy
              end)
  /\ match find carries_error resps with
     | Some resp => upstreamErr resp <> None
     | None => forall resp, In resp resps -> upstreamErr resp = None
     end.
Proof.
  intro Hnil. rewrite (aggregate_without_addresses resps Hnil), first_upstreamErr_find.
  destruct (find carries_error resps) as [resp|] eqn:Hfind.
  - apply find_some in Hfind as [_ Hc]. unfold carries_error in Hc.
    destruct (upstreamErr resp); [split; [reflexivity | discriminate] | discriminate].
  - split; [reflexivity|]. intros resp Hin.
    pose proof (find_none _ _ Hfind resp Hin) as Hc. unfold carries_error in Hc.
    now destruct (upstreamErr resp).
Qed.

Lemma aggregate_failure_reports_first_error_witness :
  let resps := [mkFwdResp (Some (formerr query_www)) 0 None;
                mkFwdResp None 0 (Some timeout_err);
                mkFwdResp None 0 (Some (ErrTransport "connection refused"))] in
  aggregate resps
  = Returned [] DNS.RcodeServerFailure
             (match find carries_error resps with
              | Some resp => upstreamErr resp
              | None => Some ErrNoHealthy
              end)
  /\ match find carries_error resps with
     | Some resp => upstreamErr resp <> None
     | None => forall resp, In resp resps -> upstreamErr resp = None
     end.
Proof.
  cbv zeta.
  apply (aggregate_failure_reports_first_error
           [mkFwdResp (Some (formerr query_www)) 0 None;
            mkFwdResp None 0 (Some timeout_err);
            mkFwdResp None 0 (Some (ErrTransport "connection refused"))]).
  reflexivity.
Defined.

(** C9, as amended: when the combined answer list is not empty, the reply
    written is the last reply in collection order that holds at least one A
    or AAAA record, with its answer section replaced by the combined list;
    its header and question section are that reply's. *)
Theorem template_is_last_address_reply resps :
  address_records resps <> [] ->
  exists m w,
    last_address_reply resps = Some m
    /\ aggregate resps = Returned [w] 0 None
    /\ w = DNS.set_Answer m (address_records resps)
    /\ DNS.Id w = DNS.Id m
    /\ DNS.Rcode w = DNS.Rcode m
    /\ DNS.Question_ w = DNS.Question_ m.
Proof.
  intro Hne.
  destruct (aggregate_with_addresses resps Hne) as (m & Hlast & Hagg).
  exists m. eexists. split; [exact Hlast|]. split; [exact Hagg|].
  repeat split.
Qed.

Lemma template_is_last_address_reply_witness :
  let resps := [mkFwdResp (Some reply_a) 0 None;
                mkFwdResp (Some reply_cname) 0 None] in
  exists m w,
    last_address_reply resps = Some m
    /\ aggregate resps = Returned [w] 0 None
    /\ w = DNS.set_Answer m (address_records resps)
    /\ DNS.Id w = DNS.Id m
    /\ DNS.Rcode w = DNS.Rcode m
    /\ DNS.Question_ w = DNS.Question_ m.
Proof.
  cbv zeta.
  apply (template_is_last_address_reply
           [mkFwdResp (Some reply_a) 0 None; mkFwdResp (Some reply_cname) 0 None]).
  simpl. discriminate.
Defined.

(** C9, as stated, fails: the first upstream answers with an A record, the
    second with a CNAME only (rcode 3).  The last successful reply is the
    second one, yet the reply written carries the header of the first. *)
Lemma template_is_not_last_reply :
  let resps := [mkFwdResp (Some reply_a) 0 None;
                mkFwdResp (Some reply_cname) 0 None] in
  address_records resps <> []
  /\ last_reply resps = Some reply_cname
  /\ aggregate resps = Returned [DNS.set_Answer reply_a [rr_a]] 0 None
  /\ aggregate resps
     <> Returned [DNS.set_Answer reply_cname (address_records resps)] 0 None.
Proof.
  cbv zeta. repeat split; try reflexivity; vm_compute; discriminate.
Qed.

(** ** [ServeDNS] *)

(** The live list is the policy's list without the upstreams that are down. *)
Lemma live_loop_filter list_ : forall live,
  live_loop list_ live
  = live ++ filter (fun proxy => negb (down_at_dispatch proxy)) list_.
Proof.
  induction list_ as [|proxy rest IH]; intro live; cbn [live_loop filter].
  - now rewrite app_nil_r.
  - destruct (down_at_dispatch proxy); cbn [negb]; rewrite IH.
    + reflexivity.
    + now rewrite <- app_assoc.
Qed.

Lemma collected_nothing runs arrival :
  (forall r, In r runs -> sends r = []) ->
  collected runs arrival = [].
Proof.
  intro Hruns. unfold collected.
  induction arrival as [|i rest IH]; [reflexivity|].
  cbn [flat_map]. rewrite IH.
  destruct (nth_error runs i) as [r|] eqn:Hi; [|reflexivity].
  apply nth_error_In in Hi. now rewrite (Hruns r Hi).
Qed.

Lemma existsb_is_exit_done x runs :
  x <> Done ->
  (forall r, In r runs -> exit r = Done) ->
  existsb (is_exit x) runs = false.
Proof.
  intros Hx Hruns. induction runs as [|r rest IH]; [reflexivity|].
  cbn [existsb]. rewrite IH by (intros; apply Hruns; now right).
  unfold is_exit. rewrite (Hruns r (or_introl eq_refl)).
  now destruct x.
Qed.

(** C3: for an admitted query, if every upstream of the policy's list is
    down (the live list is empty), [ServeDNS] returns the server-failure
    rcode with [ErrNoHealthy] and writes nothing. *)
Theorem no_live_upstream_is_ErrNoHealthy {E : External} f state arrival :
  match_ f state = true ->
  filter (fun proxy => negb (down_at_dispatch proxy)) (List f) = [] ->
  ServeDNS f state arrival
  = Returned [] DNS.RcodeServerFailure (Some ErrNoHealthy).
Proof.
  intros Hmatch Hlive. unfold ServeDNS.
  rewrite Hmatch, live_loop_filter, Hlive. cbn [negb app map existsb].
  now rewrite collected_nothing by (intros r []).
Qed.

Lemma no_live_upstream_is_ErrNoHealthy_witness :
  let E := sample_External in
  let f := forward_with [mkProxy true [mkConn (Some reply_a) None] always_down]
                        2 (mkOptions false false) in
  ServeDNS f query_www [0]
  = Returned [] DNS.RcodeServerFailure (Some ErrNoHealthy).
Proof.
  cbv zeta.
  apply (@no_live_upstream_is_ErrNoHealthy sample_External
           (forward_with [mkProxy true [mkConn (Some reply_a) None] always_down]
                         2 (mkOptions false false))
           query_www [0]).
  - reflexivity.
  - reflexivity.
Defined.

(** C10: with [maxfails = 0], for an admitted query no worker enters its
    retry loop: it returns without calling [Connect] and without sending a
    result, whatever its upstream would have done; and [ServeDNS] returns
    the server-failure rcode with [ErrNoHealthy], having written nothing. *)
Theorem maxfails_zero_never_connects {E : External} f state arrival :
  maxfails f = 0%N ->
  match_ f state = true ->
  (forall down script, worker f state down script = mkRun [] 0 Done)
  /\ ServeDNS f state arrival
     = Returned [] DNS.RcodeServerFailure (Some ErrNoHealthy).
Proof.
  intros Hzero Hmatch.
  assert (Hw : forall down script, worker f state down script = mkRun [] 0 Done).
  { intros down script. unfold worker. now rewrite Hzero. }
  split; [exact Hw|].
  unfold ServeDNS. rewrite Hmatch. cbn [negb].
  set (runs := map _ _).
  assert (Hruns : forall r, In r runs -> r = mkRun [] 0 Done).
  { intros r Hin. apply in_map_iff in Hin as (proxy & <- & _). apply Hw. }
  rewrite !existsb_is_exit_done; try discriminate;
    try (intros r Hin; now rewrite (Hruns r Hin)).
  rewrite collected_nothing; [reflexivity|].
  intros r Hin. now rewrite (Hruns r Hin).
Qed.

Lemma maxfails_zero_never_connects_witness :
  let E := sample_External in
  let f := forward_with [mkProxy false [mkConn (Some reply_a) None] never_down]
                        0 (mkOptions false false) in
  (forall down script, worker f query_www down script = mkRun [] 0 Done)
  /\ ServeDNS f query_www [0]
     = Returned [] DNS.RcodeServerFailure (Some ErrNoHealthy).
Proof.
  cbv zeta.
  apply (@maxfails_zero_never_connects sample_External
           (forward_with [mkProxy false [mkConn (Some reply_a) None] never_down]
                         0 (mkOptions false false))
           query_www [0]).
  - reflexivity.
  - reflexivity.
Defined.

(** ** Admission *)

Lemma ignored_loop_forallb {E : External} ignored name :
  ignored_loop ignored name
  = forallb (fun ignore => negb (Matches ignore name)) ignored.
Proof.
  induction ignored as [|ignore rest IH]; [reflexivity|].
  cbn [ignored_loop forallb]. rewrite IH. now destruct (Matches ignore name).
Qed.

Lemma Matches_refl {E : External} n : Matches n n = true.
Proof. unfold Matches. now rewrite String.eqb_refl. Qed.

(** C8: a query whose name is the zone [from] itself is admitted, whatever
    the exclusion patterns; any other query is admitted if and only if its
    name falls under [from] and no exclusion pattern matches it. *)
Theorem match_admits {E : External} f state :
  if String.eqb (state_Name state) (from f)
  then match_ f state = true
  else (match_ f state = true <->
        Matches (from f) (state_Name state) = true
        /\ forallb (fun ignore => negb (Matches ignore (state_Name state)))
                   (ignored f) = true).
Proof.
  unfold match_, isAllowedDomain.
  destruct (String.eqb (state_Name state) (from f)) eqn:Heq.
  - apply String.eqb_eq in Heq. rewrite Heq, Matches_refl. reflexivity.
  - rewrite ignored_loop_forallb.
    destruct (Matches (from f) (state_Name state)); cbn [negb orb].
    + destruct (forallb _ (ignored f)); cbn [negb]; split; intuition congruence.
    + split; intuition congruence.
Qed.

(** ** From the workers to the aggregation *)

(** Once every worker has returned, [ServeDNS] is [aggregate] on what the
    channel holds. *)
Lemma ServeDNS_aggregate {E : External} f state arrival :
  match_ f state = true ->
  let runs := map (fun proxy =>
                     worker f state (down_after_fail proxy) (connects proxy))
                  (live_loop (List f) []) in
  (forall r, In r runs -> exit r = Done) ->
  ServeDNS f state arrival = aggregate (collected runs arrival).
Proof.
  intros Hmatch runs Hdone. unfold ServeDNS. rewrite Hmatch. cbn [negb].
  fold runs. now rewrite !existsb_is_exit_done by (auto; discriminate).
Qed.

Lemma collected_in_worker_order runs :
  collected runs (seq 0 (List.length runs)) = flat_map sends runs.
Proof.
  unfold collected. induction runs as [|r rest IH]; [reflexivity|].
  cbn [List.length seq flat_map nth_error]. f_equal.
  rewrite <- seq_shift, flat_map_concat_map, map_map, <- flat_map_concat_map.
  exact IH.
Qed.

(** Whatever the order of arrival, the channel holds the results the
    workers sent, each once. *)
Lemma collected_permutation runs arrival :
  Permutation arrival (seq 0 (List.length runs)) ->
  Permutation (collected runs arrival) (flat_map sends runs).
Proof.
  intro Hperm. rewrite <- collected_in_worker_order.
  unfold collected. now apply Permutation_flat_map.
Qed.

(** The scenario of three upstreams: the first answers with an A record,
    the second fails until it is marked down, the third answers with an
    AAAA record and arrives first. *)
Example three_upstreams_scenario :
  let E := sample_External in
  let u1 := mkProxy false [mkConn (Some reply_a) None] never_down in
  let u2 := mkProxy false [conn_timeout; conn_timeout]
                    (fun k => Nat.leb 1 k) in
  let u3 := mkProxy false [mkConn (Some reply_aaaa) None] never_down in
  ServeDNS (forward_with [u1; u2; u3] 2 (mkOptions false false)) query_www [2; 0; 1]
  = Returned [DNS.set_Answer reply_a [rr_aaaa; rr_a]] 0 None.
Proof. reflexivity. Qed.

(** A truncated reply over UDP is retried once over TCP, and the failure
    counter is still 0 when the worker returns. *)
Example truncated_then_answer :
  let E := sample_External in
  let o := mkOptions false true in
  worker (forward_with [] 2 o) query_www never_down
         [mkConn (Some reply_truncated) None; mkConn (Some reply_a) None]
  = mkRun [EvConnect o; EvConnect (mkOptions true true);
           EvSend (mkFwdResp (Some reply_a) 0 None)] 0 Done.
Proof. reflexivity. Qed.

(** The apex of the zone is admitted even when an exclusion pattern covers
    it; a name under an exclusion pattern is not. *)
Example apex_is_admitted :
  let E := sample_External in
  let f := mkForward [] identity_policy "example.org."
                     ["org."%string] 2 (mkOptions false false) in
  match_ f query_apex = true /\ match_ f query_www = false.
Proof. split; reflexivity. Qed.

(** The channel of line 90 has room for every result: no send blocks. *)
Lemma channel_capacity_suffices {E : External} f state :
  let live := live_loop (List f) [] in
  let runs := map (fun proxy =>
                     worker f state (down_after_fail proxy) (connects proxy))
                  live in
  List.length (flat_map sends runs) <= List.length live.
Proof.
  cbv zeta. induction (live_loop (List f) []) as [|proxy rest IH]; [auto|].
  cbn [map flat_map List.length]. rewrite length_app.
  pose proof (worker_sends_le f state (down_after_fail proxy) (connects proxy)).
  lia.
Qed.

(** A truncated reply that does not match is not judged by [state.Match]:
    with [preferUDP] set it is retried over TCP first. *)
Example truncated_mismatch_is_retried :
  let E := sample_External in
  let o := mkOptions false true in
  let other_truncated := DNS.mkMsg 9 true 0 true true false 0
                           [DNS.mkQuestion "mail.example.org." 1 1] [] in
  worker (forward_with [] 2 o) query_www never_down
         [mkConn (Some other_truncated) None; mkConn (Some reply_a) None]
  = mkRun [EvConnect o; EvConnect (mkOptions true true);
           EvSend (mkFwdResp (Some reply_a) 0 None)] 0 Done.
Proof. reflexivity. Qed.

(** * Further properties of the worker *)

Section WorkerBounds.
Context {E : External}.
Variable f : Forward.
Variable state : Request.
Variable down : nat -> bool.

Lemma retry_with_tcp_can_escalate o r :
  retry_with_tcp o r = true -> can_escalate o = true.
Proof.
  unfold retry_with_tcp, can_escalate. destruct r as [m|]; [|discriminate].
  destruct (DNS.Truncated m); [trivial | discriminate].
Qed.

Lemma can_escalate_set_forceTCP o : can_escalate (set_forceTCP o) = false.
Proof. reflexivity. Qed.

(** Without [ErrCachedClosed], the loop calls [Connect] at most
    [connect_budget] times, and a script of that length lets it return. *)
Lemma connect_loop_budget script : forall fails o ndown,
  uint32_ok (maxfails f) ->
  (fails < maxfails f)%N ->
  forallb not_cached_closed script = true ->
  connect_count (connect_loop f state down script fails o ndown)
  <= connect_budget f fails o
  /\ (connect_budget f fails o <= List.length script ->
      exit (connect_loop f state down script fails o ndown) <> Blocked).
Proof.
  induction script as [|r rest IH]; intros fails o ndown Hok Hlt Hall.
  - cbn [connect_loop connect_count trace filter List.length exit].
    split; [lia|]. unfold connect_budget.
    destruct (can_escalate o); lia.
  - cbn [forallb] in Hall. apply andb_prop in Hall as [Hr Hrest].
    unfold not_cached_closed in Hr. apply negb_true_iff in Hr.
    cbn [connect_loop List.length]. rewrite Hr.
    rewrite connect_count_prepend, exit_prepend.
    change (connect_count (mkRun [EvConnect o] 0 Done)) with 1.
    assert (Hk : 1 <= N.to_nat (maxfails f - fails)) by lia.
    destruct (retry_with_tcp o (c_ret r)) eqn:Htcp.
    + pose proof (retry_with_tcp_can_escalate _ _ Htcp) as Hesc.
      destruct (IH fails (set_forceTCP o) ndown Hok Hlt Hrest) as [Hc Hx].
      unfold connect_budget in *. rewrite Hesc.
      rewrite can_escalate_set_forceTCP in Hc, Hx.
      split; [lia | intro Hlen; apply Hx; lia].
    + destruct (c_err r) as [err|].
      * rewrite connect_count_prepend, exit_prepend,
          connect_count_healthcheck_events,
          (wrap32_succ fails (maxfails f) Hok Hlt).
        change (connect_count (mkRun [EvDown (down ndown)] 0 Done)) with 0.
        destruct (down ndown); cbn [negb].
        -- cbn [connect_count trace filter List.length exit].
           unfold connect_budget. split; [destruct (can_escalate o); lia | discriminate].
        -- destruct (N.ltb (fails + 1) (maxfails f)) eqn:Hnext.
           ++ apply N.ltb_lt in Hnext.
              destruct (IH (fails + 1)%N (opts f) (S ndown) Hok Hnext Hrest) as [Hc Hx].
              unfold connect_budget in *.
              assert (Hk' : N.to_nat (maxfails f - (fails + 1))
                            = N.to_nat (maxfails f - fails) - 1) by lia.
              rewrite Hk' in Hc, Hx.
              split.
              ** destruct (can_escalate o), (can_escalate (opts f)); lia.
              ** intro Hlen. apply Hx.
                 destruct (can_escalate o), (can_escalate (opts f)); lia.
           ++ cbn [connect_count trace filter List.length exit].
              unfold connect_budget.
              split; [destruct (can_escalate o); lia | discriminate].
      * unfold connect_budget.
        destruct (c_ret r) as [m|].
        -- destruct (state_Match state m); cbn [negb connect_count trace filter
                                                  List.length exit];
             (split; [destruct (can_escalate o); lia | discriminate]).
        -- cbn [connect_count trace filter List.length exit].
           split; [destruct (can_escalate o); lia | discriminate].
Qed.

End WorkerBounds.

(** X1: whatever its upstream does, and whether or not it has returned, a
    worker has sent at most one result. *)
Theorem worker_sends_at_most_one {E : External} f state down script :
  List.length (sends (worker f state down script)) <= 1.
Proof. apply worker_sends_le. Qed.

(** X3: if no [Connect] call returns [ErrCachedClosed], a worker calls
    [Connect] at most [2 * maxfails] times (every attempt is retried over
    TCP at most once), and a script of that many results lets it leave
    [Connect] for good. *)
Theorem worker_connects_at_most_twice_maxfails {E : External} f state down script :
  uint32_ok (maxfails f) ->
  forallb not_cached_closed script = true ->
  connect_count (worker f state down script) <= 2 * N.to_nat (maxfails f)
  /\ (2 * N.to_nat (maxfails f) <= List.length script ->
      exit (worker f state down script) <> Blocked).
Proof.
  intros Hok Hall. unfold worker.
  destruct (N.ltb_spec 0 (maxfails f)) as [Hpos|Hzero].
  - destruct (connect_loop_budget f state down script 0%N (opts f) 0 Hok Hpos Hall)
      as [Hc Hx].
    unfold connect_budget in *. rewrite N.sub_0_r in Hc, Hx.
    split; [destruct (can_escalate (opts f)); lia|].
    intro Hlen. apply Hx. destruct (can_escalate (opts f)); lia.
  - cbn. split; [lia | discriminate].
Qed.

Lemma worker_connects_at_most_twice_maxfails_witness :
  let E := sample_External in
  let f := forward_with [] 2 (mkOptions false true) in
  let script := [mkConn (Some reply_truncated) None; conn_timeout;
                 mkConn (Some reply_truncated) None; conn_timeout] in
  connect_count (worker f query_www never_down script) <= 2 * N.to_nat (maxfails f)
  /\ (2 * N.to_nat (maxfails f) <= List.length script ->
      exit (worker f query_www never_down script) <> Blocked).
Proof.
  cbv zeta.
  apply (@worker_connects_at_most_twice_maxfails sample_External
           (forward_with [] 2 (mkOptions false true)) query_www never_down
           [mkConn (Some reply_truncated) None; conn_timeout;
            mkConn (Some reply_truncated) None; conn_timeout]).
  - unfold uint32_ok, uint32_max. simpl. lia.
  - reflexivity.
Defined.

Section WorkerOutcome.
Context {E : External}.
Variable f : Forward.
Variable state : Request.
Variable down : nat -> bool.

(** Dropping the [ErrCachedClosed] results from the script changes neither
    what the loop sends, nor how it ends, nor its failure counter. *)
Lemma connect_loop_cached_closed script : forall fails o ndown,
  let r1 := connect_loop f state down script fails o ndown in
  let r2 := connect_loop f state down (filter not_cached_closed script)
                         fails o ndown in
  sends r1 = sends r2 /\ exit r1 = exit r2 /\ final_fails r1 = final_fails r2.
Proof.
  induction script as [|r rest IH]; intros fails o ndown; cbv zeta.
  - repeat split.
  - cbn [filter].
    assert (Hn : not_cached_closed r = negb (is_cached_closed (c_err r)))
      by reflexivity.
    rewrite Hn. clear Hn.
    destruct (is_cached_closed (c_err r)) eqn:Hcc; cbn [negb].
    + cbn [connect_loop]. rewrite Hcc.
      rewrite sends_prepend, exit_prepend, final_fails_prepend.
      cbn [sends trace flat_map app].
      apply IH.
    + cbn [connect_loop]. rewrite Hcc.
      rewrite !sends_prepend, !exit_prepend, !final_fails_prepend.
      destruct (retry_with_tcp o (c_ret r)).
      * destruct (IH fails (set_forceTCP o) ndown) as (Hs & Hx & Hf).
        now rewrite Hs, Hx, Hf.
      * destruct (c_err r) as [err|]; [|repeat split].
        rewrite !sends_prepend, !exit_prepend, !final_fails_prepend.
        destruct (down ndown); cbn [negb]; [repeat split|].
        destruct (N.ltb _ _); [|repeat split].
        destruct (IH (wrap32 (fails + 1)) (opts f) (S ndown)) as (Hs & Hx & Hf).
        now rewrite Hs, Hx, Hf.
Qed.

(** What a result sent by the loop can be. *)
Lemma connect_loop_result_shape script : forall fails o ndown resp,
  In resp (sends (connect_loop f state down script fails o ndown)) ->
  code resp = 0%Z
  /\ ((ret resp = None
       /\ exists e, upstreamErr resp = Some e /\ e <> ErrCachedClosed
                    /\ exists r, In r script /\ c_err r = Some e)
      \/ (upstreamErr resp = None
          /\ exists m, In (mkConn (Some m) None) script
                       /\ ((state_Match state m = true /\ ret resp = Some m)
                           \/ (state_Match state m = false
                               /\ ret resp = Some (formerr state))))).
Proof.
  induction script as [|r rest IH]; intros fails o ndown resp Hin.
  - destruct Hin.
  - assert (Hrec : forall fails' o' ndown',
              In resp (sends (connect_loop f state down rest fails' o' ndown')) ->
              code resp = 0%Z
              /\ ((ret resp = None
                   /\ exists e, upstreamErr resp = Some e /\ e <> ErrCachedClosed
                                /\ exists r0, In r0 (r :: rest) /\ c_err r0 = Some e)
                  \/ (upstreamErr resp = None
                      /\ exists m, In (mkConn (Some m) None) (r :: rest)
                                   /\ ((state_Match state m = true /\ ret resp = Some m)
                                       \/ (state_Match state m = false
                                           /\ ret resp = Some (formerr state)))))).
    { intros fails' o' ndown' H.
      destruct (IH fails' o' ndown' resp H) as [Hc [(Hr & e & He & Hne & r0 & Hr0 & Hr0e)
                                                   |(He & m & Hm & Hcase)]].
      - split; [exact Hc|]. left. split; [exact Hr|]. exists e. repeat split; auto.
        exists r0. split; [now right | exact Hr0e].
      - split; [exact Hc|]. right. split; [exact He|]. exists m.
        split; [now right | exact Hcase]. }
    cbn [connect_loop] in Hin. rewrite sends_prepend in Hin. cbn [sends trace flat_map app] in Hin.
    destruct (is_cached_closed (c_err r)) eqn:Hcc; [now apply Hrec in Hin|].
    destruct (retry_with_tcp o (c_ret r)); [now apply Hrec in Hin|].
    destruct r as [cr ce]. cbn [c_err c_ret] in *.
    destruct ce as [err|].
    + rewrite sends_prepend, sends_healthcheck_events in Hin.
      cbn [sends trace flat_map app] in Hin.
      destruct (down ndown); cbn [negb] in Hin.
      * cbn in Hin. destruct Hin as [<-|[]]. cbn [code ret upstreamErr].
        split; [reflexivity|]. left. split; [reflexivity|].
        exists err. split; [reflexivity|]. split.
        -- intro Habs. subst err. discriminate Hcc.
        -- exists (mkConn cr (Some err)). split; [now left | reflexivity].
      * destruct (N.ltb _ _); [now apply Hrec in Hin | destruct Hin].
    + destruct cr as [m|]; [|destruct Hin].
      destruct (state_Match state m) eqn:Hm; cbn in Hin; destruct Hin as [<-|[]];
        cbn [code ret upstreamErr]; (split; [reflexivity|]); right;
        (split; [reflexivity|]); exists m; (split; [now left|]); auto.
Qed.

(** A result with an error is sent only after [Down] has answered true. *)
Lemma connect_loop_error_needs_down script : forall fails o ndown resp,
  (forall i, down i = false) ->
  In resp (sends (connect_loop f state down script fails o ndown)) ->
  upstreamErr resp = None.
Proof.
  induction script as [|r rest IH]; intros fails o ndown resp Hdown Hin.
  - destruct Hin.
  - cbn [connect_loop] in Hin. rewrite sends_prepend in Hin.
    cbn [sends trace flat_map app] in Hin.
    destruct (is_cached_closed (c_err r)); [now apply IH in Hin|].
    destruct (retry_with_tcp o (c_ret r)); [now apply IH in Hin|].
    destruct (c_err r) as [err|].
    + rewrite sends_prepend, sends_healthcheck_events, Hdown in Hin.
      cbn [sends trace flat_map app negb] in Hin.
      destruct (N.ltb _ _); [now apply IH in Hin | destruct Hin].
    + destruct (c_ret r) as [m|]; [|destruct Hin].
      destruct (state_Match state m); cbn in Hin; destruct Hin as [<-|[]]; reflexivity.
Qed.


(** The loop panics only on a [Connect] result with neither reply nor
    error. *)
Lemma connect_loop_no_panic script : forall fails o ndown,
  forallb reply_or_error script = true ->
  exit (connect_loop f state down script fails o ndown) <> Panicked.
Proof.
  induction script as [|r rest IH]; intros fails o ndown Hall.
  - discriminate.
  - cbn [forallb] in Hall. apply andb_prop in Hall as [Hr Hrest].
    cbn [connect_loop]. rewrite exit_prepend.
    destruct (is_cached_closed (c_err r)); [now apply IH|].
    destruct (retry_with_tcp o (c_ret r)); [now apply IH|].
    unfold reply_or_error in Hr.
    destruct (c_err r) as [err|].
    + rewrite exit_prepend. destruct (down ndown); cbn [negb]; [discriminate|].
      destruct (N.ltb _ _); [now apply IH | discriminate].
    + destruct (c_ret r) as [m|]; [|discriminate].
      destruct (state_Match state m); discriminate.
Qed.

End WorkerOutcome.

Lemma healthcheck_count_prepend evs r :
  healthcheck_count (prepend evs r)
  = healthcheck_count (mkRun evs 0 Done) + healthcheck_count r.
Proof.
  unfold healthcheck_count, prepend; simpl.
  now rewrite filter_app, length_app.
Qed.

Lemma down_count_prepend evs r :
  down_count (prepend evs r) = down_count (mkRun evs 0 Done) + down_count r.
Proof.
  unfold down_count, prepend; simpl.
  now rewrite filter_app, length_app.
Qed.

Lemma connect_options_prepend evs r :
  connect_options (prepend evs r)
  = connect_options (mkRun evs 0 Done) ++ connect_options r.
Proof. unfold connect_options, prepend; simpl. now rewrite flat_map_app. Qed.

Section WorkerInvariants.
Context {E : External}.
Variable f : Forward.
Variable state : Request.
Variable down : nat -> bool.

(** The options of an attempt: those of [f], or those of [f] with
    [forceTCP] set after a truncated reply. *)
Lemma connect_loop_options script : forall fails o ndown o',
  o = opts f \/ (o = set_forceTCP (opts f) /\ can_escalate (opts f) = true) ->
  In o' (connect_options (connect_loop f state down script fails o ndown)) ->
  o' = opts f \/ (o' = set_forceTCP (opts f) /\ can_escalate (opts f) = true).
Proof.
  induction script as [|r rest IH]; intros fails o ndown o' Ho Hin.
  - destruct Hin.
  - cbn [connect_loop] in Hin. rewrite connect_options_prepend in Hin.
    cbn [connect_options trace flat_map app] in Hin.
    destruct Hin as [<-|Hin]; [exact Ho|].
    destruct (is_cached_closed (c_err r)); [now apply IH in Hin|].
    destruct (retry_with_tcp o (c_ret r)) eqn:Htcp.
    + apply retry_with_tcp_can_escalate in Htcp.
      apply IH in Hin; [exact Hin|].
      destruct Ho as [->|[-> _]]; [now right|].
      rewrite can_escalate_set_forceTCP in Htcp. discriminate.
    + destruct (c_err r) as [err|].
      * rewrite connect_options_prepend in Hin.
        apply in_app_or in Hin as [Hin|Hin].
        -- unfold healthcheck_events, connect_options in Hin.
           destruct (N.eqb (maxfails f) 0); destruct Hin.
        -- destruct (down ndown); cbn [negb] in Hin; [destruct Hin|].
           destruct (N.ltb _ _); [|destruct Hin].
           apply IH in Hin; [exact Hin | now left].
      * destruct (c_ret r) as [m|]; [|destruct Hin].
        destruct (state_Match state m); destruct Hin.
Qed.

(** Every counted failure starts one health check and asks [Down] once;
    the counter never passes [maxfails]. *)
Lemma connect_loop_counts script : forall fails o ndown,
  uint32_ok (maxfails f) ->
  (fails < maxfails f)%N ->
  let r := connect_loop f state down script fails o ndown in
  (fails <= final_fails r)%N
  /\ (final_fails r <= maxfails f)%N
  /\ healthcheck_count r = N.to_nat (final_fails r - fails)
  /\ down_count r = N.to_nat (final_fails r - fails).
Proof.
  induction script as [|r rest IH]; intros fails o ndown Hok Hlt; cbv zeta.
  - cbn. repeat split; lia.
  - cbn [connect_loop].
    rewrite final_fails_prepend, healthcheck_count_prepend, down_count_prepend.
    change (healthcheck_count (mkRun [EvConnect o] 0 Done)) with 0.
    change (down_count (mkRun [EvConnect o] 0 Done)) with 0.
    cbn [plus].
    destruct (is_cached_closed (c_err r)); [now apply IH|].
    destruct (retry_with_tcp o (c_ret r)); [now apply IH|].
    destruct (c_err r) as [err|].
    + rewrite final_fails_prepend, healthcheck_count_prepend, down_count_prepend,
        (wrap32_succ fails (maxfails f) Hok Hlt).
      unfold healthcheck_events.
      destruct (N.eqb_spec (maxfails f) 0) as [Hz|_]; [lia|].
      change (healthcheck_count (mkRun ([EvHealthcheck] ++ [EvDown (down ndown)]) 0 Done))
        with 1.
      change (down_count (mkRun ([EvHealthcheck] ++ [EvDown (down ndown)]) 0 Done))
        with 1.
      destruct (down ndown); cbn [negb].
      * cbn. repeat split; lia.
      * destruct (N.ltb_spec (fails + 1) (maxfails f)) as [Hnext|Hnext].
        -- destruct (IH (fails + 1)%N (opts f) (S ndown) Hok Hnext) as (H1 & H2 & H3 & H4).
           rewrite H3, H4. repeat split; lia.
        -- cbn. repeat split; lia.
    + destruct (c_ret r) as [m|].
      * destruct (state_Match state m); cbn; repeat split; lia.
      * cbn. repeat split; lia.
Qed.

End WorkerInvariants.

(** X4: the [ErrCachedClosed] results of [Connect] are transparent: with
    or without them in the script, the worker sends the same result, ends
    the same way and ends with the same failure counter. *)
Theorem cached_closed_is_transparent {E : External} f state down script :
  let r1 := worker f state down script in
  let r2 := worker f state down (filter not_cached_closed script) in
  sends r1 = sends r2 /\ exit r1 = exit r2 /\ final_fails r1 = final_fails r2.
Proof.
  cbv zeta. unfold worker. destruct (N.ltb 0 (maxfails f)).
  - apply connect_loop_cached_closed.
  - repeat split.
Qed.

(** X5: a result sent by a worker has code 0 and is of one of two kinds: no
    reply and an error that some [Connect] call returned, never
    [ErrCachedClosed]; or no error and a reply, which is either a reply
    that [Connect] returned without error and that matches the query, or
    the format-error reply built for one that does not match. *)
Theorem worker_result_shape {E : External} f state down script resp :
  In resp (sends (worker f state down script)) ->
  code resp = 0%Z
  /\ ((ret resp = None
       /\ exists e, upstreamErr resp = Some e /\ e <> ErrCachedClosed
                    /\ exists r, In r script /\ c_err r = Some e)
      \/ (upstreamErr resp = None
          /\ exists m, In (mkConn (Some m) None) script
                       /\ ((state_Match state m = true /\ ret resp = Some m)
                           \/ (state_Match state m = false
                               /\ ret resp = Some (formerr state))))).
Proof.
  unfold worker. destruct (N.ltb 0 (maxfails f)).
  - apply connect_loop_result_shape.
  - intros [].
Qed.

Lemma worker_result_shape_witness :
  let E := sample_External in
  let f := forward_with [] 2 (mkOptions false false) in
  let script := [mkConn None (Some ErrCachedClosed); conn_timeout;
                 mkConn (Some reply_other) None] in
  let resp := mkFwdResp (Some (formerr query_www)) 0 None in
  code resp = 0%Z
  /\ ((ret resp = None
       /\ exists e, upstreamErr resp = Some e /\ e <> ErrCachedClosed
                    /\ exists r, In r script /\ c_err r = Some e)
      \/ (upstreamErr resp = None
          /\ exists m, In (mkConn (Some m) None) script
                       /\ ((sample_Match query_www m = true /\ ret resp = Some m)
                           \/ (sample_Match query_www m = false
                               /\ ret resp = Some (formerr query_www))))).
Proof.
  cbv zeta.
  apply (@worker_result_shape sample_External
           (forward_with [] 2 (mkOptions false false)) query_www never_down
           [mkConn None (Some ErrCachedClosed); conn_timeout;
            mkConn (Some reply_other) None]
           (mkFwdResp (Some (formerr query_www)) 0 None)).
  simpl. left. reflexivity.
Defined.

(** X6: as long as [Down] answers false, a worker reports no transport
    error: whatever it sends carries a nil [upstreamErr]. *)
Theorem worker_reports_error_only_if_down {E : External} f state down script :
  (forall i, down i = false) ->
  Forall (fun resp => upstreamErr resp = None) (sends (worker f state down script)).
Proof.
  intro Hdown. apply Forall_forall. intros resp Hin. unfold worker in Hin.
  destruct (N.ltb 0 (maxfails f)).
  - now apply connect_loop_error_needs_down in Hin.
  - destruct Hin.
Qed.

Lemma worker_reports_error_only_if_down_witness :
  let E := sample_External in
  let f := forward_with [] 3 (mkOptions false false) in
  let script := [conn_timeout; conn_timeout; mkConn (Some reply_a) None] in
  Forall (fun resp => upstreamErr resp = None)
         (sends (worker f query_www never_down script)).
Proof.
  cbv zeta.
  apply (@worker_reports_error_only_if_down sample_External
           (forward_with [] 3 (mkOptions false false)) query_www never_down
           [conn_timeout; conn_timeout; mkConn (Some reply_a) None]).
  intro i. reflexivity.
Defined.



(** X8: a worker does not panic as long as every [Connect] call returns a
    reply or an error: the nil dereference in [state.Match] needs a nil
    reply together with a nil error. *)
Theorem worker_does_not_panic {E : External} f state down script :
  forallb reply_or_error script = true ->
  exit (worker f state down script) <> Panicked.
Proof.
  intro Hall. unfold worker. destruct (N.ltb 0 (maxfails f)).
  - now apply connect_loop_no_panic.
  - discriminate.
Qed.

Lemma worker_does_not_panic_witness :
  let E := sample_External in
  let f := forward_with [] 2 (mkOptions false true) in
  let script := [mkConn (Some reply_truncated) (Some timeout_err);
                 mkConn None (Some ErrCachedClosed);
                 mkConn (Some reply_other) None] in
  exit (worker f query_www never_down script) <> Panicked.
Proof.
  cbv zeta.
  apply (@worker_does_not_panic sample_External
           (forward_with [] 2 (mkOptions false true)) query_www never_down
           [mkConn (Some reply_truncated) (Some timeout_err);
            mkConn None (Some ErrCachedClosed);
            mkConn (Some reply_other) None]).
  reflexivity.
Defined.

(** X9: every [Connect] call of a worker is made with the options of [f]
    or, when these prefer UDP without forcing TCP, with the same options and
    [forceTCP] set; [preferUDP] is never changed, and the escalation of one
    attempt is dropped at the next. *)
Theorem worker_connect_options {E : External} f state down script :
  Forall (fun o => preferUDP o = preferUDP (opts f)
                   /\ (o = opts f
                       \/ (o = mkOptions true true
                           /\ forceTCP (opts f) = false
                           /\ preferUDP (opts f) = true)))
         (connect_options (worker f state down script)).
Proof.
  apply Forall_forall. intros o Hin. unfold worker in Hin.
  destruct (N.ltb 0 (maxfails f)); [|destruct Hin].
  apply connect_loop_options in Hin; [|now left].
  destruct Hin as [->|[-> Hesc]]; [split; [reflexivity | now left]|].
  unfold can_escalate in Hesc. apply andb_prop in Hesc as [Hf Hu].
  apply negb_true_iff in Hf. unfold set_forceTCP. rewrite Hu.
  split; [reflexivity|]. right. repeat split; assumption.
Qed.

(** X10: at every point of a worker's run its failure counter is at most
    [maxfails], and the worker has started exactly one health check and
    asked [Down] exactly once for every failure it counted. *)
Theorem worker_failure_accounting {E : External} f state down script :
  uint32_ok (maxfails f) ->
  let r := worker f state down script in
  (final_fails r <= maxfails f)%N
  /\ healthcheck_count r = N.to_nat (final_fails r)
  /\ down_count r = N.to_nat (final_fails r).
Proof.
  intros Hok. cbv zeta. unfold worker.
  destruct (N.ltb_spec 0 (maxfails f)) as [Hpos|Hzero].
  - destruct (connect_loop_counts f state down script 0%N (opts f) 0 Hok Hpos)
      as (_ & H2 & H3 & H4).
    rewrite N.sub_0_r in H3, H4. auto.
  - cbn. repeat split. lia.
Qed.

Lemma worker_failure_accounting_witness :
  let E := sample_External in
  let f := forward_with [] 3 (mkOptions false false) in
  let r := worker f query_www never_down
                  [conn_timeout; mkConn None (Some ErrCachedClosed);
                   conn_timeout; mkConn (Some reply_a) None] in
  (final_fails r <= maxfails f)%N
  /\ healthcheck_count r = N.to_nat (final_fails r)
  /\ down_count r = N.to_nat (final_fails r).
Proof.
  cbv zeta.
  apply (@worker_failure_accounting sample_External
           (forward_with [] 3 (mkOptions false false)) query_www never_down
           [conn_timeout; mkConn None (Some ErrCachedClosed);
            conn_timeout; mkConn (Some reply_a) None]).
  unfold uint32_ok, uint32_max. simpl. lia.
Defined.

(** * Further properties of the aggregation and of [ServeDNS] *)

Lemma address_records_are_addresses resps :
  Forall (fun rr => is_address rr = true) (address_records resps).
Proof.
  apply Forall_forall. intros rr Hin. unfold address_records in Hin.
  apply in_flat_map in Hin as (resp & _ & Hin).
  destruct (ret resp) as [m|]; [|destruct Hin].
  now apply filter_In in Hin.
Qed.

(** The two ways [aggregate] can end. *)
Lemma aggregate_cases resps :
  (exists e, aggregate resps = Returned [] DNS.RcodeServerFailure (Some e)
             /\ address_records resps = [])
  \/ (exists m, aggregate resps = Returned [m] 0 None
                /\ DNS.Answer m = address_records resps
                /\ address_records resps <> []).
Proof.
  destruct (address_records resps) as [|rr rrs] eqn:Hrec.
  - left. rewrite (aggregate_without_addresses resps Hrec).
    destruct (first_upstreamErr resps) as [e|]; eexists; split; reflexivity.
  - right.
    assert (Hne : address_records resps <> []) by (rewrite Hrec; discriminate).
    destruct (aggregate_with_addresses resps Hne) as (m & _ & Hagg).
    eexists. split; [exact Hagg|]. rewrite Hrec. split; [reflexivity | discriminate].
Qed.

Lemma forallb_Permutation {A} (P : A -> bool) l l' :
  Permutation l l' -> forallb P l = forallb P l'.
Proof.
  induction 1 as [|x l l' _ IH|x y l|l l' l'' _ IH1 _ IH2]; cbn [forallb].
  - reflexivity.
  - now rewrite IH.
  - now destruct (P x), (P y).
  - now rewrite IH1.
Qed.

(** X11: the aggregation never dereferences a nil [successRet].  Either it
    writes nothing and returns the server-failure rcode with an error, or
    it writes exactly one reply and returns (0, nil); the answer section of
    that reply is not empty and holds A and AAAA records only, so any other
    record of the upstream replies, a CNAME for one, is left out. *)
Theorem aggregate_outcome resps :
  (exists e, aggregate resps = Returned [] DNS.RcodeServerFailure (Some e))
  \/ (exists m, aggregate resps = Returned [m] 0 None
                /\ DNS.Answer m <> []
                /\ Forall (fun rr => is_address rr = true) (DNS.Answer m)).
Proof.
  destruct (aggregate_cases resps) as [(e & He & _)|(m & Hm & Hans & Hne)].
  - left. now exists e.
  - right. exists m. split; [exact Hm|]. rewrite Hans. split; [exact Hne|].
    apply address_records_are_addresses.
Qed.

(** X12: [ServeDNS] hands the query to the next plugin exactly when
    [match] rejects it; an admitted query is never passed on, whatever the
    upstreams do. *)
Theorem ServeDNS_next_iff_not_matched {E : External} f state arrival :
  ServeDNS f state arrival = NextOrFailure <-> match_ f state = false.
Proof.
  unfold ServeDNS. destruct (match_ f state); cbn [negb].
  - split; [|discriminate].
    destruct (existsb (is_exit Panicked) _); [discriminate|].
    destruct (existsb (is_exit Blocked) _); [discriminate|].
    intro H.
    destruct (aggregate_cases
                (collected (map (fun proxy =>
                                   worker f state (down_after_fail proxy)
                                          (connects proxy))
                                (live_loop (List f) [])) arrival))
      as [(e & He & _)|(m & Hm & _)]; congruence.
  - split; reflexivity.
Qed.

(** X13: one useful upstream is enough.  For an admitted query, once every
    worker has returned, if some worker sent a reply holding an address
    record then [ServeDNS] writes one reply and returns (0, nil), whatever
    the other workers sent and in whatever order the results arrived; the
    answer section holds the address records of all the results sent. *)
Theorem one_answer_suffices {E : External} f state arrival :
  let runs := map (fun proxy =>
                     worker f state (down_after_fail proxy) (connects proxy))
                  (live_loop (List f) []) in
  match_ f state = true ->
  (forall r, In r runs -> exit r = Done) ->
  Permutation arrival (seq 0 (List.length runs)) ->
  address_records (flat_map sends runs) <> [] ->
  exists w, ServeDNS f state arrival = Returned [w] 0 None
            /\ Permutation (DNS.Answer w) (address_records (flat_map sends runs)).
Proof.
  intros runs Hmatch Hdone Hperm Hne.
  rewrite (ServeDNS_aggregate f state arrival Hmatch Hdone). fold runs.
  pose proof (collected_permutation runs arrival Hperm) as Hcol.
  assert (Hrec : Permutation (address_records (collected runs arrival))
                             (address_records (flat_map sends runs))).
  { unfold address_records. now apply Permutation_flat_map. }
  assert (Hne' : address_records (collected runs arrival) <> []).
  { intro Hnil. rewrite Hnil in Hrec. apply Permutation_nil in Hrec. contradiction. }
  destruct (aggregate_with_addresses _ Hne') as (m & _ & Hagg).
  eexists. split; [exact Hagg|]. exact Hrec.
Qed.

Lemma one_answer_suffices_witness :
  let E := sample_External in
  let u1 := mkProxy false [mkConn (Some reply_cname) None] never_down in
  let u2 := mkProxy false [conn_timeout; conn_timeout] always_down in
  let u3 := mkProxy false [mkConn (Some reply_aaaa) None] never_down in
  let f := forward_with [u1; u2; u3] 2 (mkOptions false false) in
  let runs := map (fun proxy =>
                     worker f query_www (down_after_fail proxy) (connects proxy))
                  (live_loop (List f) []) in
  exists w, ServeDNS f query_www [1; 2; 0] = Returned [w] 0 None
            /\ Permutation (DNS.Answer w) (address_records (flat_map sends runs)).
Proof.
  cbv zeta.
  apply (@one_answer_suffices sample_External
           (forward_with
              [mkProxy false [mkConn (Some reply_cname) None] never_down;
               mkProxy false [conn_timeout; conn_timeout] always_down;
               mkProxy false [mkConn (Some reply_aaaa) None] never_down]
              2 (mkOptions false false))
           query_www [1; 2; 0]).
  - reflexivity.
  - simpl. intros r [<-|[<-|[<-|[]]]]; reflexivity.
  - simpl. apply Permutation_sym.
    apply (perm_trans (l' := [1; 0; 2])); [apply perm_swap|].
    apply perm_skip. apply perm_swap.
  - simpl. discriminate.
Defined.

(** X2: the results that arrive on the channel, in any order of arrival, are
    never more than the live upstreams, which is the capacity the channel
    is made with: no worker blocks on its send. *)
Theorem results_fit_channel {E : External} f state arrival :
  let live := live_loop (List f) [] in
  let runs := map (fun proxy =>
                     worker f state (down_after_fail proxy) (connects proxy))
                  live in
  Permutation arrival (seq 0 (List.length runs)) ->
  List.length (collected runs arrival) <= List.length live.
Proof.
  cbv zeta. intro Hperm.
  rewrite (Permutation_length (collected_permutation _ _ Hperm)).
  apply channel_capacity_suffices.
Qed.

Lemma results_fit_channel_witness :
  let E := sample_External in
  let u1 := mkProxy false [mkConn (Some reply_a) None] never_down in
  let u2 := mkProxy false [conn_timeout; conn_timeout] never_down in
  let f := forward_with [u1; u2] 2 (mkOptions false false) in
  let live := live_loop (List f) [] in
  let runs := map (fun proxy =>
                     worker f query_www (down_after_fail proxy) (connects proxy))
                  live in
  List.length (collected runs [1; 0]) <= List.length live.
Proof.
  cbv zeta.
  apply (@results_fit_channel sample_External
           (forward_with [mkProxy false [mkConn (Some reply_a) None] never_down;
                          mkProxy false [conn_timeout; conn_timeout] never_down]
                         2 (mkOptions false false))
           query_www [1; 0]).
  simpl. apply perm_swap.
Defined.

(** X14: the live list of [ServeDNS] is the policy's list with the upstreams
    that are down taken out: the others are kept, each once and in the
    policy's order. *)
Theorem live_is_policy_list_without_down list_ :
  live_loop list_ []
  = filter (fun proxy => negb (down_at_dispatch proxy)) list_.
Proof. now rewrite live_loop_filter. Qed.

(** X15: the order of the exclusion patterns does not matter to
    admission: two configurations with the same zone and the same patterns
    in another order admit the same queries. *)
Theorem match_ignores_pattern_order {E : External} f f' state :
  from f = from f' ->
  Permutation (ignored f) (ignored f') ->
  match_ f state = match_ f' state.
Proof.
  intros Hfrom Hperm. unfold match_, isAllowedDomain.
  rewrite !ignored_loop_forallb, Hfrom.
  now rewrite (forallb_Permutation _ _ _ Hperm).
Qed.

Lemma match_ignores_pattern_order_witness :
  let E := sample_External in
  let o := mkOptions false false in
  let f := mkForward [] identity_policy "example.org."
                     ["internal.example.org."%string; "www.example.org."%string] 2 o in
  let f' := mkForward [] identity_policy "example.org."
                      ["www.example.org."%string; "internal.example.org."%string] 2 o in
  match_ f query_www = match_ f' query_www.
Proof.
  cbv zeta.
  apply (@match_ignores_pattern_order sample_External
           (mkForward [] identity_policy "example.org."
                      ["internal.example.org."%string; "www.example.org."%string]
                      2 (mkOptions false false))
           (mkForward [] identity_policy "example.org."
                      ["www.example.org."%string; "internal.example.org."%string]
                      2 (mkOptions false false))
           query_www).
  - reflexivity.
  - simpl. apply perm_swap.
Defined.

(** X16: exclusion patterns only take away: a query admitted under a list
    of patterns is admitted under any list that holds no other pattern. *)
Theorem match_fewer_patterns_admit_more {E : External} f f' state :
  from f = from f' ->
  incl (ignored f') (ignored f) ->
  match_ f state = true ->
  match_ f' state = true.
Proof.
  intros Hfrom Hincl. unfold match_, isAllowedDomain.
  rewrite !ignored_loop_forallb, Hfrom.
  destruct (Matches (from f') (state_Name state)); cbn [negb orb]; [|discriminate].
  destruct (String.eqb (state_Name state) (from f')); [reflexivity|].
  destruct (forallb _ (ignored f)) eqn:Hall; cbn [negb]; [intros _|discriminate].
  assert (Hall' : forallb (fun ignore => negb (Matches ignore (state_Name state)))
                          (ignored f') = true).
  { apply forallb_forall. intros x Hx.
    exact (proj1 (forallb_forall _ _) Hall x (Hincl x Hx)). }
  now rewrite Hall'.
Qed.

Lemma match_fewer_patterns_admit_more_witness :
  let E := sample_External in
  let o := mkOptions false false in
  let f := mkForward [] identity_policy "example.org."
                     ["internal.example.org."%string; "lab.example.org."%string] 2 o in
  let f' := mkForward [] identity_policy "example.org."
                      ["lab.example.org."%string] 2 o in
  match_ f' query_www = true.
Proof.
  cbv zeta.
  apply (@match_fewer_patterns_admit_more sample_External
           (mkForward [] identity_policy "example.org."
                      ["internal.example.org."%string; "lab.example.org."%string]
                      2 (mkOptions false false))
           (mkForward [] identity_policy "example.org."
                      ["lab.example.org."%string] 2 (mkOptions false false))
           query_www).
  - reflexivity.
  - intros x Hx. simpl in *. destruct Hx as [<-|[]]. right. left. reflexivity.
  - reflexivity.
Defined.
